(** * aeacus: the configuration obfuscation pipeline of [crypto.go]

    A shallow embedding of [crypto.go] (package main of aeacus) and the
    properties of its two entry points [obfuscateData] and
    [deobfuscateData].

    Go strings and byte slices are byte sequences ([list ascii]); an
    [error] is represented by its message, since the code inspects errors
    only through [err.Error()].  SHA-256 is implemented here (FIPS 180-4)
    because the key the pipeline masks with is the digest of a constant of
    the source.  The zlib writer and reader and the AES-GCM seal and open
    operations of the Go standard library are parameters of the model
    (record [GoLib]); what a theorem needs from them is stated as a
    hypothesis of that theorem. *)

From Stdlib Require Import List Bool Arith NArith Lia Ascii String.
Import ListNotations.

Set Implicit Arguments.

(** ** Byte sequences *)

Definition bytes := list ascii.

(** A Go string literal. *)
Definition str (s : string) : bytes := list_ascii_of_string s.

Definition byte_of_N (n : N) : ascii := ascii_of_N (n mod 256).

Fixpoint eqb_bytes (a b : bytes) : bool :=
  match a, b with
  | [], [] => true
  | x :: a', y :: b' => Ascii.eqb x y && eqb_bytes a' b'
  | _, _ => false
  end.

Definition isEmpty (s : bytes) : bool :=
  match s with [] => true | _ :: _ => false end.

(** ** SHA-256 (crypto/sha256), after FIPS 180-4 *)

Module SHA256.
Local Open Scope N_scope.

Definition wmask : N := 4294967295.
Definition trunc (x : N) : N := N.land x wmask.
Definition add32 (a b : N) : N := trunc (a + b).
Definition rotr (n x : N) : N :=
  N.lor (N.shiftr x n) (trunc (N.shiftl x (32 - n))).
Definition not32 (x : N) : N := N.lxor x wmask.

Definition Ch (x y z : N) : N := N.lxor (N.land x y) (N.land (not32 x) z).
Definition Maj (x y z : N) : N :=
  N.lxor (N.lxor (N.land x y) (N.land x z)) (N.land y z).
Definition Sigma0 (x : N) : N := N.lxor (N.lxor (rotr 2 x) (rotr 13 x)) (rotr 22 x).
Definition Sigma1 (x : N) : N := N.lxor (N.lxor (rotr 6 x) (rotr 11 x)) (rotr 25 x).
Definition sigma0 (x : N) : N := N.lxor (N.lxor (rotr 7 x) (rotr 18 x)) (N.shiftr x 3).
Definition sigma1 (x : N) : N := N.lxor (N.lxor (rotr 17 x) (rotr 19 x)) (N.shiftr x 10).

(** The round constants and the initial state are the first 32 bits of the
    fractional parts of the cube roots, respectively square roots, of the
    first primes (FIPS 180-4, sections 4.2.2 and 5.3.3). *)
Definition primes : list N :=
  [2; 3; 5; 7; 11; 13; 17; 19; 23; 29; 31; 37; 41; 43; 47; 53; 59; 61; 67;
   71; 73; 79; 83; 89; 97; 101; 103; 107; 109; 113; 127; 131; 137; 139;
   149; 151; 157; 163; 167; 173; 179; 181; 191; 193; 197; 199; 211; 223;
   227; 229; 233; 239; 241; 251; 257; 263; 269; 271; 277; 281; 283; 293;
   307; 311].

Fixpoint cube_root_from (k : nat) (n r : N) : N :=
  match k with
  | O => r
  | S k' =>
      let r' := r + N.shiftl 1 (N.of_nat k') in
      if r' * r' * r' <=? n then cube_root_from k' n r' else cube_root_from k' n r
  end.

Definition cube_root (n : N) : N := cube_root_from 40 n 0.

Definition Kround : list N :=
  Eval vm_compute in map (fun p => trunc (cube_root (N.shiftl p 96))) primes.

Definition Hinit : list N :=
  Eval vm_compute in map (fun p => trunc (N.sqrt (N.shiftl p 64))) (firstn 8 primes).

(** Message schedule: [rw] holds W_(t-1), W_(t-2), ... (latest first). *)
Definition next_w (rw : list N) : N :=
  add32 (add32 (sigma1 (nth 1 rw 0)) (nth 6 rw 0))
        (add32 (sigma0 (nth 14 rw 0)) (nth 15 rw 0)).

Fixpoint extend (k : nat) (rw : list N) {struct k} : list N :=
  match k with
  | O => rw
  | S k' => extend k' (next_w rw :: rw)
  end.

Definition schedule (blk : list N) : list N := rev (extend 48 (rev blk)).

Definition state : Type := (N * N * N * N * N * N * N * N)%type.

Definition round (st : state) (kw : N * N) : state :=
  let '(a, b, c, d, e, f, g, h) := st in
  let t1 := add32 (add32 (add32 h (Sigma1 e)) (add32 (Ch e f g) (fst kw))) (snd kw) in
  let t2 := add32 (Sigma0 a) (Maj a b c) in
  (add32 t1 t2, a, b, c, add32 d t1, e, f, g).

Definition compress (st : state) (blk : list N) : state :=
  let '(a, b, c, d, e, f, g, h) := fold_left round (combine Kround (schedule blk)) st in
  let '(a0, b0, c0, d0, e0, f0, g0, h0) := st in
  (add32 a0 a, add32 b0 b, add32 c0 c, add32 d0 d,
   add32 e0 e, add32 f0 f, add32 g0 g, add32 h0 h).

Definition init : state :=
  (nth 0 Hinit 0, nth 1 Hinit 0, nth 2 Hinit 0, nth 3 Hinit 0,
   nth 4 Hinit 0, nth 5 Hinit 0, nth 6 Hinit 0, nth 7 Hinit 0).

(** Big-endian words of a byte block. *)
Fixpoint words (bs : list N) (n : nat) {struct n} : list N :=
  match n, bs with
  | S n', b0 :: b1 :: b2 :: b3 :: rest =>
      (N.shiftl b0 24 + N.shiftl b1 16 + N.shiftl b2 8 + b3) :: words rest n'
  | _, _ => []
  end.

Fixpoint blocks (st : state) (bs : list N) (n : nat) {struct n} : state :=
  match n with
  | O => st
  | S n' => blocks (compress st (words (firstn 64 bs) 16)) (skipn 64 bs) n'
  end.

Definition be (width : nat) (x : N) : list N :=
  map (fun i => N.shiftr x (8 * N.of_nat (width - 1 - i)) mod 256) (seq 0 width).

Definition pad (msg : list N) : list N :=
  let len := N.of_nat (List.length msg) in
  let zeros := N.to_nat ((64 - (len + 9) mod 64) mod 64) in
  msg ++ 128 :: repeat 0 zeros ++ be 8 (8 * len).

Definition be32 (x : N) : bytes :=
  [byte_of_N (N.shiftr x 24); byte_of_N (N.shiftr x 16);
   byte_of_N (N.shiftr x 8); byte_of_N x].

Definition digest (msg : bytes) : bytes :=
  let padded := pad (map N_of_ascii msg) in
  let '(a, b, c, d, e, f, g, h) := blocks init padded (List.length padded / 64) in
  be32 a ++ be32 b ++ be32 c ++ be32 d ++ be32 e ++ be32 f ++ be32 g ++ be32 h.

End SHA256.

Arguments SHA256.digest : simpl never.

(** ** hash.Hash as used by the code: New, Write, Sum

    [hasher.Write] appends to the hashed message and, as documented for
    hash.Hash, never returns an error; [hasher.Sum b] appends the digest of
    everything written to [b]. *)

Record hasher := { written : bytes }.

Definition sha256_New : hasher := {| written := [] |}.

Definition error := bytes.

Definition hasher_Write (h : hasher) (p : bytes) : hasher * option error :=
  ({| written := written h ++ p |}, None).

Definition hasher_Sum (h : hasher) (b : bytes) : bytes :=
  b ++ SHA256.digest (written h).

(** ** Helpers of the repository that crypto.go calls *)

Definition xor_byte (a b : ascii) : ascii :=
  let '(Ascii a0 a1 a2 a3 a4 a5 a6 a7) := a in
  let '(Ascii b0 b1 b2 b3 b4 b5 b6 b7) := b in
  Ascii (xorb a0 b0) (xorb a1 b1) (xorb a2 b2) (xorb a3 b3)
        (xorb a4 b4) (xorb a5 b5) (xorb a6 b6) (xorb a7 b7).

(** [xor_from i key data] masks [data], whose first byte has index [i]. *)
Fixpoint xor_from (i : nat) (key data : bytes) : bytes :=
  match data with
  | [] => []
  | d :: rest =>
      xor_byte d (nth (i mod List.length key) key zero) :: xor_from (S i) key rest
  end.

(** Modelled from the spec: [xor] is defined outside crypto.go.  Section
    4.3: "for index i, output[i] = data[i] XOR key[i mod len(key)]".  The
    spec leaves a key of length 0 undefined; crypto.go only passes the
    32-byte digest of [randomString] and the one-byte [randomBytes]. *)
Definition xor (key plaintext : bytes) : bytes := xor_from 0 key plaintext.

Definition hexdigits : bytes := str "0123456789abcdef".

Definition hexEncodeByte (c : ascii) : bytes :=
  let n := N.to_nat (N_of_ascii c) in
  [nth (n / 16) hexdigits zero; nth (n mod 16) hexdigits zero].

(** Modelled from the spec: [hexEncode] is defined outside crypto.go.
    Section 4.5: standard hexadecimal, two digits per byte (lower case, as
    encoding/hex writes them). *)
Definition hexEncode (s : bytes) : bytes := flat_map hexEncodeByte s.

(** The value of a hexadecimal digit; both cases of the letters are digits. *)
Definition fromHexChar (c : ascii) : option N :=
  let n := N_of_ascii c in
  if ((48 <=? n) && (n <=? 57))%N then Some (n - 48)%N
  else if ((97 <=? n) && (n <=? 102))%N then Some (n - 87)%N
  else if ((65 <=? n) && (n <=? 70))%N then Some (n - 55)%N
  else None.

Definition ErrLength : error := str "encoding/hex: odd length hex string".
Definition InvalidByteError (c : ascii) : error :=
  str "encoding/hex: invalid byte: " ++ [c].

Fixpoint hexDecodePairs (s : bytes) : bytes * option error :=
  match s with
  | [] => ([], None)
  | [c] =>
      match fromHexChar c with
      | Some _ => ([], Some ErrLength)
      | None => ([], Some (InvalidByteError c))
      end
  | p :: q :: rest =>
      match fromHexChar p, fromHexChar q with
      | Some a, Some b =>
          let '(out, err) := hexDecodePairs rest in
          (byte_of_N (16 * a + b)%N :: out, err)
      | None, _ => ([], Some (InvalidByteError p))
      | _, None => ([], Some (InvalidByteError q))
      end
  end.

(** Modelled from the spec: [hexDecode] is defined outside crypto.go.
    Section 4.5: "decode must reject odd-length or non-hex-digit input with
    a format error; round-trip exact".  On an error the returned string is
    taken to be empty; no statement below depends on that choice. *)
Definition hexDecode (s : bytes) : bytes * option error :=
  match hexDecodePairs s with
  | (out, None) => (out, None)
  | (_, Some e) => ([], Some e)
  end.

(** ** strings.TrimSpace

    "TrimSpace returns a slice of the string s, with all leading and
    trailing white space removed, as defined by Unicode."  A Go string is
    read as UTF-8; the white space characters (unicode.IsSpace) are U+0009
    to U+000D, U+0020, U+0085, U+00A0, U+1680, U+2000 to U+200A, U+2028,
    U+2029, U+202F, U+205F and U+3000.  Each has exactly one UTF-8
    encoding, an ill-formed sequence decodes to U+FFFD (not white space),
    and no encoding below is a prefix or a suffix of another, so a string
    starts (ends) with a white space character exactly when it starts
    (ends) with one of these byte sequences. *)

Definition unicodeSpaces : list bytes :=
  map (map byte_of_N)
    [[9]; [10]; [11]; [12]; [13]; [32];
     [194; 133]; [194; 160];
     [225; 154; 128];
     [226; 128; 128]; [226; 128; 129]; [226; 128; 130]; [226; 128; 131];
     [226; 128; 132]; [226; 128; 133]; [226; 128; 134]; [226; 128; 135];
     [226; 128; 136]; [226; 128; 137]; [226; 128; 138];
     [226; 128; 168]; [226; 128; 169]; [226; 128; 175];
     [226; 129; 159];
     [227; 128; 128]]%N.

Fixpoint hasPrefix (p s : bytes) : bool :=
  match p, s with
  | [], _ => true
  | x :: p', y :: s' => Ascii.eqb x y && hasPrefix p' s'
  | _ :: _, [] => false
  end.

(** Width in bytes of the white space character [s] starts with, 0 if none. *)
Definition spaceWidth (encs : list bytes) (s : bytes) : nat :=
  match find (fun e => hasPrefix e s) encs with
  | Some e => List.length e
  | None => 0
  end.

Fixpoint trimFrom (encs : list bytes) (fuel : nat) (s : bytes) : bytes :=
  match fuel with
  | O => s
  | S f =>
      match spaceWidth encs s with
      | O => s
      | S k => trimFrom encs f (skipn (S k) s)
      end
  end.

Definition TrimLeft (s : bytes) : bytes :=
  trimFrom unicodeSpaces (List.length s) s.

Definition TrimRight (s : bytes) : bytes :=
  rev (trimFrom (map (@rev ascii) unicodeSpaces) (List.length s) (rev s)).

Definition TrimSpace (s : bytes) : bytes := TrimRight (TrimLeft s).

(** ** The world the code runs in

    [datum] is the string [obfuscateData] and [deobfuscateData] receive by
    reference; [entropy] is what crypto/rand can still deliver; [trace]
    records, in order, every stage the code invokes and every message it
    passes to the logging helpers [fail] and [debug]. *)

Inductive stage :=
| Hash | Compress | Decompress | Xor | Random | Seal | Open | HexEncode | HexDecode.

Inductive event :=
| Invoke (s : stage)
| LogFail (args : list bytes)
| LogDebug (args : list bytes).

Record world := { datum : bytes; entropy : bytes; trace : list event }.

Inductive outcome (A : Type) :=
| Done (a : A) (w : world)
| Panic (reason : bytes).
Arguments Done {A} a w.
Arguments Panic {A} reason.

Definition M (A : Type) : Type := world -> outcome A.

Definition ret {A : Type} (a : A) : M A := fun w => Done a w.

Definition bind {A B : Type} (m : M A) (k : A -> M B) : M B :=
  fun w => match m w with
           | Done a w' => k a w'
           | Panic r => Panic r
           end.

Notation "x <- m ;; k" := (bind m (fun x => k))
  (at level 61, m at next level, right associativity).
Notation "m ;;; k" := (bind m (fun _ => k))
  (at level 61, right associativity).

Definition panic {A : Type} (reason : string) : M A := fun _ => Panic (str reason).

Definition emit (e : event) : M unit :=
  fun w => Done tt {| datum := datum w; entropy := entropy w; trace := trace w ++ [e] |}.

(** [*datum] and [*datum = s]. *)
Definition load : M bytes := fun w => Done (datum w) w.
Definition store (s : bytes) : M unit :=
  fun w => Done tt {| datum := s; entropy := entropy w; trace := trace w |}.

(** Modelled from the spec: [fail] and [debug] are the logging helpers of
    the repository, defined outside crypto.go (section 1: logging
    infrastructure is an external collaborator).  They record their
    arguments and return. *)
Definition fail (args : list bytes) : M unit := emit (LogFail args).
Definition debug (args : list bytes) : M unit := emit (LogDebug args).

(** [s[:n]] and [s[n:]] panic when [n] exceeds the length of [s]. *)
Definition sliceTo (s : bytes) (n : nat) : M bytes :=
  if n <=? List.length s then ret (firstn n s)
  else panic "runtime error: slice bounds out of range".
Definition sliceFrom (s : bytes) (n : nat) : M bytes :=
  if n <=? List.length s then ret (skipn n s)
  else panic "runtime error: slice bounds out of range".

Inductive result (A : Type) :=
| Ok (a : A)
| Err (e : error).
Arguments Ok {A} a.
Arguments Err {A} e.

(** [io.ReadFull(rand.Reader, buf)] for a buffer of [n] bytes. *)
Definition rand_ReadFull (n : nat) : M (result bytes) :=
  fun w =>
    let tr := trace w ++ [Invoke Random] in
    if n <=? List.length (entropy w) then
      Done (Ok (firstn n (entropy w)))
           {| datum := datum w; entropy := skipn n (entropy w); trace := tr |}
    else
      Done (Err (if isEmpty (entropy w) then str "EOF" else str "unexpected EOF"))
           {| datum := datum w; entropy := []; trace := tr |}.

(** ** The Go standard library operations the model is parametric in *)

Record GoLib := {
  (** [writer.Write(p)] on a [zlib.NewWriter(&buf)]: the error it returns. *)
  zlib_Write : bytes -> option error;
  (** Contents of [buf] after [writer.Write(p)] and [writer.Close()]. *)
  zlib_Bytes : bytes -> bytes;
  (** [zlib.NewReader] on a stream: the error it returns. *)
  zlib_NewReader : bytes -> option error;
  (** [io.Copy(dst, reader)] on the reader of a stream: the bytes written
      to [dst] and the error returned ([None] at a clean end). *)
  io_Copy : bytes -> bytes * option error;
  (** [aesgcm.Seal(nil, nonce, plaintext, nil)] under a key. *)
  gcm_Seal : bytes -> bytes -> bytes -> bytes;
  (** [aesgcm.Open(nil, nonce, ciphertext, nil)] under a key. *)
  gcm_Open : bytes -> bytes -> bytes -> result bytes
}.

Definition aes_BlockSize : nat := 16.

(** [aes.NewCipher] accepts keys of 16, 24 or 32 bytes. *)
Definition aes_NewCipher (key : bytes) : result bytes :=
  let n := List.length key in
  if (n =? 16) || (n =? 24) || (n =? 32) then Ok key
  else Err (str "crypto/aes: invalid key size").

(** [cipher.NewGCM] accepts every cipher of block size 16. *)
Definition cipher_NewGCM (block : bytes) : result bytes := Ok block.

(** ** crypto.go *)

Definition randomString : bytes := str "HASH_HERE".

Definition byteKey : bytes := [byte_of_N 1].

Definition randomBytes : bytes := [byte_of_N 1].

(** [hasher := sha256.New(); _, err := hasher.Write(data)] followed by
    [hasher.Sum(nil)]: the error of the write and the digest. *)
Definition sha256sum (data : bytes) : option error * bytes :=
  let hasher := sha256_New in
  let '(hasher, err) := hasher_Write hasher data in
  (err, hasher_Sum hasher []).

(** Lines 52-65 of [encryptConfig], repeated as lines 87-100 of
    [decryptConfig], with the constant they read as an argument. *)
Definition secretKey (secret : bytes) : M (result bytes) :=
  if List.length secret <? 64 then
    emit (Invoke Hash) ;;;
    let '(err, sum) := sha256sum secret in
    match err with
    | Some e => fail [e] ;;; ret (Err e)
    | None => ret (Ok sum)
    end
  else ret (Ok secret).

Section Pipeline.

Variable L : GoLib.

Definition encryptString (password plainText : bytes) : M bytes :=
  emit (Invoke Hash) ;;;
  let '(err, key) := sha256sum password in
  match err with
  | Some e => fail [e] ;;; ret []
  | None =>
      let paddingArray :=
        repeat " "%char (aes_BlockSize - List.length plainText mod aes_BlockSize) in
      let plainText := plainText ++ paddingArray in
      if negb (List.length plainText mod aes_BlockSize =? 0) then
        fail [str "plainText is not a multiple of block size!"] ;;; ret []
      else
        match aes_NewCipher key with
        | Err e => fail [e] ;;; ret []
        | Ok block =>
            r <- rand_ReadFull 12 ;;
            match r with
            | Err e => fail [e] ;;; ret []
            | Ok nonce =>
                match cipher_NewGCM block with
                | Err e => fail [e] ;;; ret []
                | Ok aesgcm =>
                    emit (Invoke Seal) ;;;
                    let ciphertext := gcm_Seal L aesgcm nonce plainText in
                    ret (nonce ++ ciphertext)
                end
            end
        end
  end.

Definition decryptString (password ciphertext : bytes) : M bytes :=
  emit (Invoke Hash) ;;;
  let '(err, key) := sha256sum password in
  match err with Some e => fail [e] | None => ret tt end ;;;
  iv <- sliceTo ciphertext 12 ;;
  ciphertext <- sliceFrom ciphertext 12 ;;
  match aes_NewCipher key with
  | Err e => fail [e] ;;; ret []
  | Ok block =>
      match cipher_NewGCM block with
      | Err e =>
          fail [str "Error creating AES cipher (please tell the developers):"; e] ;;;
          ret []
      | Ok aesgcm =>
          emit (Invoke Open) ;;;
          match gcm_Open L aesgcm iv ciphertext with
          | Err e =>
              fail [str "Error decrypting (are you using the correct aeacus/phocus? you may need to re-encrypt your config):"; e] ;;;
              ret []
          | Ok plainText => ret (TrimSpace plainText)
          end
      end
  end.

Definition call_xor (key data : bytes) : M bytes :=
  emit (Invoke Xor) ;;; ret (xor key data).

Definition encryptConfig (plainText : bytes) : M (bytes * option error) :=
  k <- secretKey randomString ;;
  match k with
  | Err e => ret ([], Some e)
  | Ok key =>
      emit (Invoke Compress) ;;;
      match zlib_Write L plainText with
      | Some e => ret ([], Some e)
      | None =>
          let compressedFile := zlib_Bytes L plainText in
          xorConfig <- call_xor key compressedFile ;;
          s <- encryptString byteKey xorConfig ;;
          ret (s, None)
      end
  end.

Definition decryptConfig (cipherText : bytes) : M (bytes * option error) :=
  k <- secretKey randomString ;;
  match k with
  | Err e => ret ([], Some e)
  | Ok key =>
      cipherText <- decryptString byteKey cipherText ;;
      cipherText <- call_xor key cipherText ;;
      emit (Invoke Decompress) ;;;
      match zlib_NewReader L cipherText with
      | Some _ => ret ([], Some (str "error creating zlib reader"))
      | None =>
          let '(dataBuffer, err) := io_Copy L cipherText in
          let finish (err : option error) : M (bytes * option error) :=
            let decryptedConfig := dataBuffer in
            if isEmpty decryptedConfig then
              ret ([], Some (str "decrypted config is empty"))
            else ret (decryptedConfig, err) in
          match err with
          | Some e =>
              if eqb_bytes e (str "unexpected EOF") then
                debug [str "zlib returned unexpected EOF"] ;;; finish None
              else
                ret ([], Some (str "error decrypting or decompressing zlib data: " ++ e))
          | None => finish None
          end
      end
  end.

Definition tossKey : bytes := randomBytes.

Definition obfuscateData : M (option error) :=
  d <- load ;;
  if isEmpty d then ret None
  else
    r <- encryptConfig d ;;
    store (fst r) ;;;
    match snd r with
    | None =>
        d <- load ;;
        x <- call_xor tossKey d ;;
        emit (Invoke HexEncode) ;;;
        store (hexEncode x) ;;;
        ret None
    | Some err =>
        fail [str "crypto: failed to obufscate datum: " ++ err] ;;;
        ret (Some err)
    end.

Definition deobfuscateData : M (option error) :=
  d <- load ;;
  if isEmpty d then ret None
  else
    emit (Invoke HexDecode) ;;;
    let '(s, err) := hexDecode d in
    store s ;;;
    match err with
    | Some e =>
        fail [str "crypto: failed to deobfuscate datum hex: " ++ e] ;;;
        ret (Some e)
    | None =>
        d <- load ;;
        x <- call_xor tossKey d ;;
        store x ;;;
        d <- load ;;
        r <- decryptConfig d ;;
        store (fst r) ;;;
        match snd r with
        | Some e =>
            d <- load ;;
            fail [str "crypto: failed to deobfuscate datum: "; d; e] ;;;
            ret (Some e)
        | None => ret None
        end
    end.

End Pipeline.

(** ** Definitions the statements below are written with *)

(** [w] after the events [evs]. *)
Definition logged (w : world) (evs : list event) : world :=
  {| datum := datum w; entropy := entropy w; trace := trace w ++ evs |}.

(** The keys the code derives from the constants of the source. *)
Definition maskKey : bytes := SHA256.digest randomString.
Definition cipherKey : bytes := SHA256.digest byteKey.

(** [c] occurs in the encoding of some white space character. *)
Definition spaceByte (encs : list bytes) (c : ascii) : bool :=
  existsb (fun e => existsb (Ascii.eqb c) e) encs.

(** [c] starts the encoding of some white space character. *)
Definition spaceLead (encs : list bytes) (c : ascii) : bool :=
  existsb (fun e => match e with x :: _ => Ascii.eqb x c | [] => true end) encs.

Definition reversedSpaces : list bytes := map (@rev ascii) unicodeSpaces.

(** The tail of a stream written by compress/zlib: the empty stored block
    that closes the deflate data, in front of the four checksum bytes. *)
Definition streamTail : bytes := map byte_of_N [0; 0; 255; 255]%N.

(** [s] with the byte at index [i] replaced by [b]. *)
Definition replaceAt (i : nat) (b : ascii) (s : bytes) : bytes :=
  firstn i s ++ b :: skipn (S i) s.

Section Stages.

Variable L : GoLib.

(** What [decryptString byteKey] returns for an envelope of at least 12
    bytes (lemma [decryptString_decrypted]). *)
Definition decrypted (ciphertext : bytes) : bytes :=
  match gcm_Open L cipherKey (firstn 12 ciphertext) (skipn 12 ciphertext) with
  | Ok plainText => TrimSpace plainText
  | Err _ => []
  end.

(** The four ways [decryptConfig] returns once [decryptString] has
    returned [s]: the result is decided by the zlib reader on [xor key s]. *)
Definition afterInflate (s : bytes) : bytes * option error :=
  match zlib_NewReader L (xor maskKey s) with
  | Some _ => ([], Some (str "error creating zlib reader"))
  | None =>
      let '(data, err) := io_Copy L (xor maskKey s) in
      let checked :=
        if isEmpty data then ([], Some (str "decrypted config is empty"))
        else (data, None) in
      match err with
      | None => checked
      | Some e =>
          if eqb_bytes e (str "unexpected EOF") then checked
          else ([], Some (str "error decrypting or decompressing zlib data: " ++ e))
      end
  end.

(** The stream [decryptConfig] hands to the zlib reader when the
    hex-decoded datum is [d], an envelope of at least 12 bytes. *)
Definition inflateInput (d : bytes) : bytes :=
  xor maskKey (decrypted (xor tossKey d)).

(** The plaintext [encryptConfig] hands to [encryptString], padded. *)
Definition paddedPlain (v : bytes) : bytes :=
  let x := xor maskKey (zlib_Bytes L v) in
  x ++ repeat " "%char (aes_BlockSize - List.length x mod aes_BlockSize).

(** The encrypted envelope of [v] under the nonce [nonce]. *)
Definition envelope (nonce v : bytes) : bytes :=
  nonce ++ gcm_Seal L cipherKey nonce (paddedPlain v).

End Stages.

(** ** A stand-in for the library operations

    An instance of [GoLib] on which the model can be run.  Its zlib writer
    emits what a deflate writer emits when it only uses stored blocks: the
    two header bytes, one stored block with the data, the empty stored
    block that closes the stream and the Adler-32 checksum; its reader
    reads such streams and reports a truncated one the way compress/zlib
    does.  Its AEAD masks the plaintext with a key stream and appends a
    16-byte tag computed with SHA-256.  It is not secure; it is used to
    run the code on concrete inputs. *)

Module Stub.

Definition adler32 (v : bytes) : bytes :=
  let step (st : N * N) (c : ascii) : N * N :=
    let s1 := ((fst st + N_of_ascii c) mod 65521)%N in
    (s1, ((snd st + s1) mod 65521)%N) in
  let '(s1, s2) := fold_left step v (1%N, 0%N) in
  map byte_of_N [s2 / 256; s2; s1 / 256; s1]%N.

Definition le16 (n : N) : bytes := map byte_of_N [n; n / 256]%N.

Definition deflateStored (v : bytes) : bytes :=
  let len := N.of_nat (List.length v) in
  map byte_of_N [120; 156; 0]%N ++ le16 len ++ le16 (65535 - len) ++ v ++
  byte_of_N 1 :: streamTail ++ adler32 v.

Definition Write (v : bytes) : option error :=
  if (N.of_nat (List.length v) <=? 65535)%N then None
  else Some (str "stub: more than one stored block").

Definition NewReader (s : bytes) : option error :=
  match s with
  | cmf :: flg :: _ =>
      let c := N_of_ascii cmf in
      let f := N_of_ascii flg in
      if ((c mod 16 =? 8) && (c / 16 <=? 7) && ((256 * c + f) mod 31 =? 0))%N then
        if (f / 32 mod 2 =? 1)%N then Some (str "zlib: invalid dictionary")
        else None
      else Some (str "zlib: invalid header")
  | _ => Some (str "unexpected EOF")
  end.

Fixpoint inflateStored (fuel : nat) (s out : bytes) : bytes * option error :=
  match fuel with
  | O => (out, Some (str "unexpected EOF"))
  | S fuel' =>
      match s with
      | [] => (out, Some (str "unexpected EOF"))
      | h :: rest =>
          let hn := N_of_ascii h in
          if negb (hn / 2 mod 4 =? 0)%N then (out, Some (str "flate: corrupt input"))
          else
            match rest with
            | l0 :: l1 :: n0 :: n1 :: rest' =>
                let len := (N_of_ascii l0 + 256 * N_of_ascii l1)%N in
                let nlen := (N_of_ascii n0 + 256 * N_of_ascii n1)%N in
                if negb (len + nlen =? 65535)%N then
                  (out, Some (str "flate: corrupt input"))
                else if List.length rest' <? N.to_nat len then
                  (out ++ rest', Some (str "unexpected EOF"))
                else
                  let out' := out ++ firstn (N.to_nat len) rest' in
                  let rest'' := skipn (N.to_nat len) rest' in
                  if (hn mod 2 =? 1)%N then
                    if List.length rest'' <? 4 then (out', Some (str "unexpected EOF"))
                    else if eqb_bytes (firstn 4 rest'') (adler32 out') then (out', None)
                    else (out', Some (str "zlib: invalid checksum"))
                  else inflateStored fuel' rest'' out'
            | _ => (out, Some (str "unexpected EOF"))
            end
      end
  end.

Definition Copy (s : bytes) : bytes * option error :=
  inflateStored (List.length s) (skipn 2 s) [].

Definition tag (key nonce c : bytes) : bytes :=
  firstn 16 (SHA256.digest (key ++ nonce ++ c)).

Definition Seal (key nonce plaintext : bytes) : bytes :=
  let c := xor (key ++ nonce) plaintext in
  c ++ tag key nonce c.

Definition Open (key nonce ciphertext : bytes) : result bytes :=
  let n := List.length ciphertext in
  if n <? 16 then Err (str "cipher: message authentication failed")
  else
    let c := firstn (n - 16) ciphertext in
    if eqb_bytes (skipn (n - 16) ciphertext) (tag key nonce c) then
      Ok (xor (key ++ nonce) c)
    else Err (str "cipher: message authentication failed").

Definition lib : GoLib :=
  {| zlib_Write := Write;
     zlib_Bytes := deflateStored;
     zlib_NewReader := NewReader;
     io_Copy := Copy;
     gcm_Seal := Seal;
     gcm_Open := Open |}.

(** The same library with a writer whose [Write] fails. *)
Definition failingWriter : GoLib :=
  {| zlib_Write := fun _ => Some (str "short write");
     zlib_Bytes := deflateStored;
     zlib_NewReader := NewReader;
     io_Copy := Copy;
     gcm_Seal := Seal;
     gcm_Open := Open |}.

End Stub.

Ltac mrun :=
  unfold call_xor, fail, debug, sliceTo, sliceFrom;
  unfold bind, ret, emit, load, store, panic, logged;
  cbv beta iota zeta delta [datum entropy trace fst snd negb].

(** ** Facts about the helpers *)

Lemma digest_length (msg : bytes) : List.length (SHA256.digest msg) = 32.
Proof.
  unfold SHA256.digest.
  destruct (SHA256.blocks _ _ _) as [[[[[[[a b] c] d] e] f] g] h].
  reflexivity.
Qed.

Lemma sha256sum_digest (data : bytes) :
  sha256sum data = (None, SHA256.digest data).
Proof. reflexivity. Qed.

(** From here on the digest is only ever evaluated, by [vm_compute]. *)
Opaque SHA256.digest.

Lemma xor_byte_involutive (a k : ascii) : xor_byte (xor_byte a k) k = a.
Proof.
  destruct a, k; simpl.
  repeat rewrite xorb_assoc, xorb_nilpotent, xorb_false_r.
  reflexivity.
Qed.

Lemma xor_from_length (key data : bytes) (i : nat) :
  List.length (xor_from i key data) = List.length data.
Proof.
  revert i; induction data as [|d rest IH]; intros i; simpl; [reflexivity|].
  now rewrite IH.
Qed.

Lemma xor_from_app (key a b : bytes) (i : nat) :
  xor_from i key (a ++ b) = xor_from i key a ++ xor_from (i + List.length a) key b.
Proof.
  revert i; induction a as [|d rest IH]; intros i; simpl.
  - now rewrite Nat.add_0_r.
  - rewrite IH. now rewrite <- plus_n_Sm.
Qed.

Lemma xor_from_firstn (key data : bytes) (i n : nat) :
  xor_from i key (firstn n data) = firstn n (xor_from i key data).
Proof.
  revert i n; induction data as [|d rest IH]; intros i n.
  - now rewrite !firstn_nil.
  - destruct n; simpl; [reflexivity|]. now rewrite IH.
Qed.

Lemma xor_from_involutive (key data : bytes) (i : nat) :
  xor_from i key (xor_from i key data) = data.
Proof.
  revert i; induction data as [|d rest IH]; intros i; simpl; [reflexivity|].
  now rewrite xor_byte_involutive, IH.
Qed.

Lemma xor_involutive (key data : bytes) : xor key (xor key data) = data.
Proof. apply xor_from_involutive. Qed.

Lemma xor_length (key data : bytes) : List.length (xor key data) = List.length data.
Proof. apply xor_from_length. Qed.

Lemma xor_from_congr (key data : bytes) (i j : nat) :
  i mod List.length key = j mod List.length key ->
  xor_from i key data = xor_from j key data.
Proof.
  revert i j; induction data as [|d rest IH]; intros i j Hij; cbn [xor_from].
  - reflexivity.
  - rewrite Hij. f_equal. apply IH.
    rewrite <- (Nat.add_1_r i), <- (Nat.add_1_r j).
    rewrite <- (Nat.Div0.add_mod_idemp_l i), <- (Nat.Div0.add_mod_idemp_l j).
    now rewrite Hij.
Qed.

Lemma xor_from_period (key data : bytes) (i : nat) :
  xor_from (i mod List.length key) key data = xor_from i key data.
Proof. apply xor_from_congr. apply Nat.Div0.mod_mod. Qed.

Lemma hexDecodePairs_encode (s rest : bytes) :
  hexDecodePairs (hexEncode s ++ rest) =
  let '(out, err) := hexDecodePairs rest in (s ++ out, err).
Proof.
  induction s as [|c s IH]; simpl.
  - now destruct (hexDecodePairs rest).
  - rewrite IH. destruct (hexDecodePairs rest) as [out err].
    destruct c as [[] [] [] [] [] [] [] []]; reflexivity.
Qed.

Lemma hexDecode_hexEncode (s : bytes) : hexDecode (hexEncode s) = (s, None).
Proof.
  unfold hexDecode.
  rewrite <- (app_nil_r (hexEncode s)), hexDecodePairs_encode. simpl.
  now rewrite app_nil_r.
Qed.

Lemma hexEncode_length (s : bytes) : List.length (hexEncode s) = 2 * List.length s.
Proof. induction s as [|c s IH]; simpl; [reflexivity|]. rewrite IH. lia. Qed.

Lemma hexEncode_isEmpty (s : bytes) : isEmpty (hexEncode s) = isEmpty s.
Proof. destruct s; reflexivity. Qed.

(** ** Facts about [TrimSpace] *)

Lemma hasPrefix_split (p s : bytes) :
  hasPrefix p s = true -> s = p ++ skipn (List.length p) s.
Proof.
  revert s; induction p as [|x p IH]; intros [|y s]; simpl; intros H;
    try reflexivity; try discriminate.
  apply andb_true_iff in H as [Hxy Hp].
  apply Ascii.eqb_eq in Hxy. subst y. f_equal. now apply IH.
Qed.

Lemma spaceWidth_Some (encs : list bytes) (s : bytes) (k : nat) :
  spaceWidth encs s = S k ->
  exists e, In e encs /\ List.length e = S k /\ s = e ++ skipn (S k) s.
Proof.
  unfold spaceWidth. destruct (find _ encs) as [e|] eqn:F; [|discriminate].
  intros Hk. apply find_some in F as [Hin Hp].
  exists e. repeat split; trivial. rewrite <- Hk. now apply hasPrefix_split.
Qed.

Lemma spaceByte_In (encs : list bytes) (e : bytes) (c : ascii) :
  In e encs -> In c e -> spaceByte encs c = true.
Proof.
  intros He Hc. apply existsb_exists. exists e. split; trivial.
  apply existsb_exists. exists c. split; trivial. apply Ascii.eqb_refl.
Qed.

Lemma trimFrom_skipn (encs : list bytes) (fuel : nat) (s : bytes) :
  exists j, trimFrom encs fuel s = skipn j s /\ j <= List.length s /\
            forall i, i < j -> spaceByte encs (nth i s zero) = true.
Proof.
  revert s; induction fuel as [|f IH]; intros s.
  - exists 0. simpl. repeat split; [lia | intros i Hi; lia].
  - cbn [trimFrom]. destruct (spaceWidth encs s) as [|k] eqn:W.
    + exists 0. simpl. repeat split; [lia | intros i Hi; lia].
    + destruct (spaceWidth_Some _ _ W) as (e & He & Hl & Hs).
      remember (skipn (S k) s) as s' eqn:Es'.
      destruct (IH s') as (j & Hj & Hle & Hb).
      exists (j + S k). rewrite Hj, Es', skipn_skipn. split; [reflexivity|].
      assert (Hlen : List.length s = S k + List.length s').
      { rewrite Hs at 1. rewrite length_app. now rewrite Hl. }
      split; [lia|]. intros i Hi.
      destruct (Nat.lt_ge_cases i (S k)) as [Hlt|Hge].
      * rewrite Hs, app_nth1 by lia.
        apply spaceByte_In with e; trivial. apply nth_In. lia.
      * rewrite Hs, app_nth2 by lia. rewrite Hl. apply Hb. lia.
Qed.

(** Trimming stops in front of a byte that no white space character has. *)
Lemma trimFrom_stops (encs : list bytes) (fuel : nat) (s : bytes) (i : nat) :
  spaceByte encs (nth i s zero) = false ->
  exists j, j <= i /\ j <= List.length s /\ trimFrom encs fuel s = skipn j s.
Proof.
  intros Hstop. destruct (trimFrom_skipn encs fuel s) as (j & Hj & Hle & Hb).
  exists j. repeat split; trivial.
  destruct (Nat.le_gt_cases j i) as [H|H]; trivial.
  apply Hb in H. congruence.
Qed.

Lemma trimFrom_nil (encs : list bytes) (fuel : nat) : trimFrom encs fuel [] = [].
Proof.
  induction fuel as [|f IH]; simpl; [reflexivity|].
  destruct (spaceWidth encs []); [reflexivity|apply IH].
Qed.

Lemma trimFrom_fuel (encs : list bytes) (f1 f2 : nat) (s : bytes) :
  List.length s <= f1 -> List.length s <= f2 ->
  trimFrom encs f1 s = trimFrom encs f2 s.
Proof.
  revert f2 s; induction f1 as [|f1 IH]; intros f2 s H1 H2.
  - destruct s; [|simpl in H1; lia]. now rewrite !trimFrom_nil.
  - destruct f2 as [|f2].
    + destruct s; [|simpl in H2; lia]. now rewrite !trimFrom_nil.
    + cbn [trimFrom]. destruct (spaceWidth encs s) as [|k]; [reflexivity|].
      destruct s as [|c s]; [now rewrite !trimFrom_nil|].
      simpl in H1, H2.
      apply IH; cbn [skipn]; rewrite length_skipn; lia.
Qed.

Lemma spaceWidth_no_lead (encs : list bytes) (c : ascii) (s : bytes) :
  spaceLead encs c = false -> spaceWidth encs (c :: s) = 0.
Proof.
  unfold spaceWidth, spaceLead. induction encs as [|e encs IH]; simpl; [reflexivity|].
  intros H. apply orb_false_iff in H as [He Hr].
  destruct e as [|x e]; [discriminate|]. simpl. rewrite He. simpl. now apply IH.
Qed.

Lemma TrimLeft_no_lead (c : ascii) (s : bytes) :
  spaceLead unicodeSpaces c = false -> TrimLeft (c :: s) = c :: s.
Proof.
  intros H. unfold TrimLeft. cbn [List.length trimFrom].
  now rewrite spaceWidth_no_lead.
Qed.

Lemma trimFrom_pad (fuel k : nat) (r : bytes) :
  trimFrom reversedSpaces (k + fuel) (repeat " "%char k ++ r) =
  trimFrom reversedSpaces fuel r.
Proof.
  induction k as [|k IH]; [reflexivity|].
  cbn [Nat.add repeat app trimFrom].
  replace (spaceWidth reversedSpaces (" "%char :: repeat " "%char k ++ r)) with 1
    by reflexivity.
  apply IH.
Qed.

Lemma rev_repeat (c : ascii) (k : nat) : rev (repeat c k) = repeat c k.
Proof.
  induction k as [|k IH]; [reflexivity|]. simpl. rewrite IH.
  clear IH. induction k as [|k IH]; [reflexivity|]. simpl. now rewrite IH.
Qed.

Lemma TrimRight_pad (m : bytes) (k : nat) :
  TrimRight (m ++ repeat " "%char k) = TrimRight m.
Proof.
  unfold TrimRight. fold reversedSpaces.
  rewrite rev_app_distr, rev_repeat, length_app, repeat_length.
  rewrite (Nat.add_comm (List.length m) k), trimFrom_pad.
  reflexivity.
Qed.

(** A byte that occurs in no white space character, [i] bytes from the
    end of [m], limits what [TrimRight] removes to at most [i] bytes. *)
Lemma TrimRight_stops (m : bytes) (i : nat) :
  spaceByte reversedSpaces (nth i (rev m) zero) = false ->
  exists t, t <= i /\ t <= List.length m /\
            TrimRight m = firstn (List.length m - t) m.
Proof.
  intros Hstop. unfold TrimRight. fold reversedSpaces.
  destruct (trimFrom_stops reversedSpaces (List.length m) (rev m) i Hstop)
    as (j & Hji & Hjl & Hj).
  rewrite length_rev in Hjl.
  exists j. repeat split; trivial.
  rewrite Hj, skipn_rev, rev_involutive. reflexivity.
Qed.

(** The padded plaintext [m ++ spaces] comes back from [TrimSpace] as [m]
    without at most [i] of its last bytes, when [m] starts with a byte that
    starts no white space character and has, [i] bytes from its end, a
    byte that occurs in none. *)
Lemma TrimSpace_padded (c : ascii) (m : bytes) (k i : nat) :
  spaceLead unicodeSpaces c = false ->
  spaceByte reversedSpaces (nth i (rev (c :: m)) zero) = false ->
  exists t, t <= i /\ t <= List.length (c :: m) /\
            TrimSpace ((c :: m) ++ repeat " "%char k) =
            firstn (List.length (c :: m) - t) (c :: m).
Proof.
  intros Hlead Hstop. unfold TrimSpace.
  change ((c :: m) ++ repeat " "%char k) with (c :: (m ++ repeat " "%char k)).
  rewrite TrimLeft_no_lead by trivial.
  change (c :: (m ++ repeat " "%char k)) with ((c :: m) ++ repeat " "%char k).
  rewrite TrimRight_pad. now apply TrimRight_stops.
Qed.

(** ** The masked compressed stream under the keys of the source *)

Lemma masked_head_not_space :
  spaceLead unicodeSpaces
    (xor_byte "x"%char (nth (0 mod 32) (SHA256.digest randomString) zero)) = false.
Proof. vm_compute. reflexivity. Qed.

(** Wherever the stream tail falls under the repeating key, one of its
    four masked bytes occurs in no white space character. *)
Lemma masked_tail_stopper (q : nat) :
  existsb (fun b => negb (spaceByte reversedSpaces b))
          (xor_from q (SHA256.digest randomString) streamTail) = true.
Proof.
  rewrite <- xor_from_period, digest_length.
  assert (H : forallb
                (fun r => existsb (fun b => negb (spaceByte reversedSpaces b))
                            (xor_from r (SHA256.digest randomString) streamTail))
                (seq 0 32) = true) by (vm_compute; reflexivity).
  rewrite forallb_forall in H. apply H. apply in_seq.
  split; [lia|]. apply Nat.mod_upper_bound. lia.
Qed.

Lemma TrimSpace_masked_stream (body adler : bytes) (k : nat) :
  List.length adler = 4 ->
  let c := "x"%char :: body ++ streamTail ++ adler in
  exists t, t <= 7 /\ t <= List.length c /\
    TrimSpace (xor (SHA256.digest randomString) c ++ repeat " "%char k) =
    xor (SHA256.digest randomString) (firstn (List.length c - t) c).
Proof.
  intros Hadler c. set (K := SHA256.digest randomString).
  destruct (proj1 (existsb_exists _ _) (masked_tail_stopper (1 + List.length body)))
    as (x & Hx & Hxs). fold K in Hx.
  apply negb_true_iff in Hxs.
  apply in_rev in Hx. apply (In_nth _ _ zero) in Hx as (u & Hu & Hnth).
  rewrite length_rev, xor_from_length in Hu. cbn in Hu.
  assert (Hm : xor K c =
               xor_byte "x"%char (nth (0 mod 32) K zero) ::
               (xor_from 1 K body ++
                xor_from (1 + List.length body) K streamTail ++
                xor_from (1 + List.length body + 4) K adler)).
  { unfold xor, c. cbn [xor_from]. unfold K at 1. rewrite digest_length. fold K.
    f_equal. rewrite !xor_from_app. reflexivity. }
  destruct (@TrimSpace_padded (xor_byte "x"%char (nth (0 mod 32) K zero))
              (xor_from 1 K body ++
               xor_from (1 + List.length body) K streamTail ++
               xor_from (1 + List.length body + 4) K adler) k (4 + u))
    as (t & Ht & Htl & Heq).
  - apply masked_head_not_space.
  - rewrite app_comm_cons, !rev_app_distr, <- app_assoc.
    rewrite app_nth2 by (rewrite length_rev, xor_from_length; lia).
    rewrite length_rev, xor_from_length, Hadler.
    replace (4 + u - 4) with u by lia.
    rewrite app_nth1 by (rewrite length_rev, xor_from_length; cbn; lia).
    now rewrite Hnth.
  - rewrite <- Hm, xor_length in Htl, Heq.
    exists t. repeat split; trivial; [lia|].
    unfold xor at 2. rewrite xor_from_firstn. exact Heq.
Qed.

(** ** Symbolic runs of the code *)

Section Runs.

Variable L : GoLib.

Lemma secretKey_randomString (w : world) :
  secretKey randomString w =
  Done (Ok (SHA256.digest randomString)) (logged w [Invoke Hash]).
Proof. reflexivity. Qed.

Lemma aes_NewCipher_digest (p : bytes) :
  aes_NewCipher (SHA256.digest p) = Ok (SHA256.digest p).
Proof. unfold aes_NewCipher. now rewrite digest_length. Qed.

Lemma padded_length (p : bytes) :
  (List.length (p ++ repeat " "%char (aes_BlockSize - List.length p mod aes_BlockSize))
     mod aes_BlockSize =? 0) = true.
Proof.
  rewrite length_app, repeat_length. apply Nat.eqb_eq. unfold aes_BlockSize.
  pose proof (Nat.mod_upper_bound (List.length p) 16).
  pose proof (Nat.div_mod_eq (List.length p) 16).
  replace (List.length p + (16 - List.length p mod 16))
    with ((List.length p / 16 + 1) * 16) by lia.
  apply Nat.Div0.mod_mul.
Qed.

Lemma encryptString_run (password plainText : bytes) (w : world) :
  12 <= List.length (entropy w) ->
  encryptString L password plainText w =
  Done (firstn 12 (entropy w) ++
        gcm_Seal L (SHA256.digest password) (firstn 12 (entropy w))
          (plainText ++ repeat " "%char (aes_BlockSize - List.length plainText mod aes_BlockSize)))
       {| datum := datum w; entropy := skipn 12 (entropy w);
          trace := trace w ++ [Invoke Hash; Invoke Random; Invoke Seal] |}.
Proof.
  destruct w as [d en tr]. cbn [datum entropy trace]. intros H.
  unfold encryptString. rewrite sha256sum_digest.
  mrun. rewrite padded_length. mrun.
  rewrite aes_NewCipher_digest. unfold rand_ReadFull. mrun.
  rewrite (leb_correct _ _ H). unfold cipher_NewGCM. mrun.
  rewrite <- !app_assoc. reflexivity.
Qed.

Lemma decryptString_run (password ciphertext : bytes) (w : world) :
  12 <= List.length ciphertext ->
  decryptString L password ciphertext w =
  match gcm_Open L (SHA256.digest password) (firstn 12 ciphertext) (skipn 12 ciphertext) with
  | Ok plainText => Done (TrimSpace plainText) (logged w [Invoke Hash; Invoke Open])
  | Err e =>
      Done [] (logged w [Invoke Hash; Invoke Open;
                         LogFail [str "Error decrypting (are you using the correct aeacus/phocus? you may need to re-encrypt your config):"; e]])
  end.
Proof.
  destruct w as [d en tr]. intros H.
  unfold decryptString. rewrite sha256sum_digest.
  mrun. rewrite (leb_correct _ _ H). mrun.
  rewrite aes_NewCipher_digest. unfold cipher_NewGCM. mrun.
  destruct (gcm_Open L _ _ _); mrun; rewrite <- !app_assoc; reflexivity.
Qed.

Lemma decryptString_short (password ciphertext : bytes) (w : world) :
  List.length ciphertext < 12 ->
  decryptString L password ciphertext w =
  Panic (str "runtime error: slice bounds out of range").
Proof.
  destruct w as [d en tr]. intros H.
  unfold decryptString. rewrite sha256sum_digest.
  mrun. rewrite (leb_correct_conv _ _ H). reflexivity.
Qed.

Lemma decryptString_decrypted (ciphertext : bytes) (w : world) :
  12 <= List.length ciphertext ->
  exists evs, decryptString L byteKey ciphertext w =
              Done (decrypted L ciphertext) (logged w evs).
Proof.
  intros H. rewrite decryptString_run by trivial. unfold decrypted, cipherKey.
  destruct (gcm_Open L _ _ _); eexists; reflexivity.
Qed.

Lemma logged_logged (w : world) (a b : list event) :
  logged (logged w a) b = logged w (a ++ b).
Proof. unfold logged. cbn. now rewrite app_assoc. Qed.

Lemma decryptConfig_run (cipherText : bytes) (w : world) :
  12 <= List.length cipherText ->
  exists evs, decryptConfig L cipherText w =
              Done (afterInflate L (decrypted L cipherText)) (logged w evs).
Proof.
  intros H. unfold decryptConfig.
  unfold bind at 1. rewrite secretKey_randomString.
  unfold bind at 1.
  destruct (@decryptString_decrypted cipherText (logged w [Invoke Hash]) H) as (evs & ->).
  unfold afterInflate, maskKey.
  destruct w as [d en tr]. mrun.
  destruct (zlib_NewReader L _).
  - eexists. rewrite <- !app_assoc. reflexivity.
  - destruct (io_Copy L _) as [data [e|]].
    + destruct (eqb_bytes e _); destruct (isEmpty data);
        eexists; rewrite <- !app_assoc; reflexivity.
    + destruct (isEmpty data); eexists; rewrite <- !app_assoc; reflexivity.
Qed.

Lemma decryptConfig_short (cipherText : bytes) (w : world) :
  List.length cipherText < 12 ->
  decryptConfig L cipherText w =
  Panic (str "runtime error: slice bounds out of range").
Proof.
  intros H. unfold decryptConfig.
  unfold bind at 1. rewrite secretKey_randomString.
  unfold bind at 1. now rewrite decryptString_short.
Qed.

Lemma afterInflate_error (s : bytes) :
  snd (afterInflate L s) <> None -> fst (afterInflate L s) = [].
Proof.
  unfold afterInflate. destruct (zlib_NewReader L _); [reflexivity|].
  destruct (io_Copy L _) as [data [e|]].
  - destruct (eqb_bytes e _); [|reflexivity].
    destruct (isEmpty data); [reflexivity|]. cbn. intros H. now destruct H.
  - destruct (isEmpty data); [reflexivity|]. cbn. intros H. now destruct H.
Qed.

End Runs.

(** ** Runs of the two entry points *)

Section Entry.

Variable L : GoLib.

Lemma encryptString_total (password plainText : bytes) (w : world) :
  exists s en evs,
    encryptString L password plainText w =
    Done s {| datum := datum w; entropy := en; trace := trace w ++ evs |} /\
    (s = [] \/ 12 <= List.length s).
Proof.
  destruct (Nat.le_gt_cases 12 (List.length (entropy w))) as [H|H].
  - rewrite encryptString_run by trivial. do 3 eexists. split; [reflexivity|].
    right. rewrite length_app, length_firstn. lia.
  - destruct w as [d en tr]. cbn [datum entropy trace] in *.
    unfold encryptString. rewrite sha256sum_digest.
    mrun. rewrite padded_length. mrun.
    rewrite aes_NewCipher_digest. unfold rand_ReadFull. mrun.
    rewrite (leb_correct_conv _ _ H).
    do 3 eexists. split; [rewrite <- !app_assoc; reflexivity|]. now left.
Qed.

Lemma encryptConfig_run (v : bytes) (w : world) :
  zlib_Write L v = None -> 12 <= List.length (entropy w) ->
  encryptConfig L v w =
  Done (envelope L (firstn 12 (entropy w)) v, None)
       {| datum := datum w; entropy := skipn 12 (entropy w);
          trace := trace w ++ [Invoke Hash; Invoke Compress; Invoke Xor;
                               Invoke Hash; Invoke Random; Invoke Seal] |}.
Proof.
  intros Hw He. unfold encryptConfig.
  unfold bind at 1. rewrite secretKey_randomString. rewrite Hw.
  destruct w as [d en tr]. cbn [datum entropy trace] in *. mrun.
  rewrite encryptString_run by (cbn; trivial). cbn [datum entropy trace].
  rewrite <- !app_assoc. unfold envelope, paddedPlain, cipherKey, maskKey.
  reflexivity.
Qed.

Lemma encryptConfig_total (v : bytes) (w : world) :
  exists r en evs,
    encryptConfig L v w =
    Done r {| datum := datum w; entropy := en; trace := trace w ++ evs |} /\
    (snd r <> None -> fst r = []) /\
    (snd r = None -> fst r = [] \/ 12 <= List.length (fst r)).
Proof.
  unfold encryptConfig.
  unfold bind at 1. rewrite secretKey_randomString.
  destruct w as [d en tr]. cbn [datum entropy trace] in *.
  destruct (zlib_Write L v) as [e|]; mrun.
  - do 3 eexists. split; [rewrite <- !app_assoc; reflexivity|].
    split; [reflexivity|discriminate].
  - match goal with
    | |- context [encryptString L ?p ?t ?w0] =>
        destruct (encryptString_total p t w0) as (s & en' & evs & -> & Hs)
    end.
    cbn [datum entropy trace].
    do 3 eexists. split; [rewrite <- !app_assoc; reflexivity|].
    split; [intros H; now destruct H|intros _; exact Hs].
Qed.

Lemma obfuscateData_run (v en : bytes) (tr : list event) :
  v <> [] -> zlib_Write L v = None -> 12 <= List.length en ->
  obfuscateData L {| datum := v; entropy := en; trace := tr |} =
  Done None
       {| datum := hexEncode (xor tossKey (envelope L (firstn 12 en) v));
          entropy := skipn 12 en;
          trace := tr ++ [Invoke Hash; Invoke Compress; Invoke Xor; Invoke Hash;
                          Invoke Random; Invoke Seal; Invoke Xor; Invoke HexEncode] |}.
Proof.
  intros Hv Hw He. unfold obfuscateData.
  destruct v as [|c v]; [congruence|].
  unfold bind at 1, load at 1. cbv beta iota delta [datum isEmpty].
  unfold bind at 1. rewrite encryptConfig_run by (cbn; trivial).
  mrun. rewrite <- !app_assoc. reflexivity.
Qed.

(** Every way [obfuscateData] returns. *)
Lemma obfuscateData_cases (w : world) :
  (datum w = [] /\ obfuscateData L w = Done None w) \/
  (datum w <> [] /\
   ((exists e w', obfuscateData L w = Done (Some e) w' /\ datum w' = []) \/
    (exists env w', obfuscateData L w = Done None w' /\
                    datum w' = hexEncode (xor tossKey env) /\
                    (env = [] \/ 12 <= List.length env)))).
Proof.
  destruct w as [[|c v] en tr]; [left; split; reflexivity|].
  right. split; [discriminate|].
  unfold obfuscateData. mrun. cbv beta iota delta [isEmpty].
  destruct (encryptConfig_total (c :: v) {| datum := c :: v; entropy := en; trace := tr |})
    as ([s [e|]] & en' & evs & -> & Herr & Hok);
    cbv beta iota zeta delta [datum entropy trace fst snd] in *.
  - left. do 2 eexists. split; [reflexivity|]. cbn. apply Herr. discriminate.
  - right. do 2 eexists. split; [reflexivity|]. cbn. split; [reflexivity|].
    now apply Hok.
Qed.

Lemma deobfuscateData_run (w : world) (d : bytes) :
  datum w <> [] -> hexDecode (datum w) = (d, None) -> 12 <= List.length d ->
  exists evs,
    deobfuscateData L w =
    Done (snd (afterInflate L (decrypted L (xor tossKey d))))
         {| datum := fst (afterInflate L (decrypted L (xor tossKey d)));
            entropy := entropy w; trace := trace w ++ evs |}.
Proof.
  intros Hne Hd Hlen. destruct w as [[|c v] en tr]; [now destruct Hne|].
  cbn [datum entropy trace] in *.
  unfold deobfuscateData. unfold bind at 1, load at 1. cbv beta iota delta [datum isEmpty].
  unfold bind at 1, emit at 1. cbn [datum entropy trace]. rewrite Hd.
  mrun.
  match goal with
  | |- context [decryptConfig L ?c ?w0] =>
      destruct (@decryptConfig_run L c w0) as (evs & ->);
        [now rewrite xor_length|]
  end.
  unfold logged. cbn [datum entropy trace].
  destruct (afterInflate L _) as [s [e|]]; cbn [fst snd];
    eexists; rewrite <- !app_assoc; reflexivity.
Qed.

Lemma deobfuscateData_short (w : world) (d : bytes) :
  datum w <> [] -> hexDecode (datum w) = (d, None) -> List.length d < 12 ->
  deobfuscateData L w = Panic (str "runtime error: slice bounds out of range").
Proof.
  intros Hne Hd Hlen. destruct w as [[|c v] en tr]; [now destruct Hne|].
  cbn [datum entropy trace] in *.
  unfold deobfuscateData. unfold bind at 1, load at 1. cbv beta iota delta [datum isEmpty].
  unfold bind at 1, emit at 1. cbn [datum entropy trace]. rewrite Hd.
  mrun. rewrite decryptConfig_short by (now rewrite xor_length). reflexivity.
Qed.

Lemma deobfuscateData_hex_error (w : world) (s : bytes) (e : error) :
  datum w <> [] -> hexDecode (datum w) = (s, Some e) ->
  deobfuscateData L w =
  Done (Some e)
       {| datum := s; entropy := entropy w;
          trace := trace w ++ [Invoke HexDecode;
                               LogFail [str "crypto: failed to deobfuscate datum hex: " ++ e]] |}.
Proof.
  intros Hne Hd. destruct w as [[|c v] en tr]; [now destruct Hne|].
  cbn [datum entropy trace] in *.
  unfold deobfuscateData. unfold bind at 1, load at 1. cbv beta iota delta [datum isEmpty].
  unfold bind at 1, emit at 1. cbn [datum entropy trace]. rewrite Hd.
  mrun. rewrite <- !app_assoc. reflexivity.
Qed.

End Entry.

(** ** The claims *)

Lemma eqb_bytes_eq (a b : bytes) : eqb_bytes a b = true <-> a = b.
Proof.
  revert b; induction a as [|x a IH]; intros [|y b]; simpl; split; intros H;
    try reflexivity; try discriminate.
  - apply andb_true_iff in H as [Hx Ha]. apply Ascii.eqb_eq in Hx.
    apply IH in Ha. now subst.
  - injection H as -> ->. rewrite Ascii.eqb_refl. now apply IH.
Qed.

(** Known answers (FIPS 180-4 test vector "abc"; the constant of the
    source as computed by sha256sum). *)
Lemma sha256_known_answers :
  SHA256.digest (str "abc") =
  map byte_of_N [186; 120; 22; 191; 143; 1; 207; 234; 65; 65; 64; 222; 93;
                 174; 34; 35; 176; 3; 97; 163; 150; 23; 122; 156; 180; 16;
                 255; 97; 242; 0; 21; 173]%N /\
  SHA256.digest randomString =
  map byte_of_N [219; 97; 91; 159; 227; 152; 15; 78; 133; 142; 18; 115; 254;
                 195; 16; 66; 63; 30; 86; 182; 169; 124; 159; 119; 235; 47;
                 83; 209; 8; 35; 217; 61]%N.
Proof. split; vm_compute; reflexivity. Qed.

(** C6: on the empty string both entry points return nil and leave the
    world as it was: the value stays empty, nothing is read from the random
    source and the trace gains no event, so no hashing, compression, XOR,
    cipher or hex stage was invoked. *)
Theorem identity_on_empty (L : GoLib) (en : bytes) (tr : list event) :
  obfuscateData L {| datum := []; entropy := en; trace := tr |} =
    Done None {| datum := []; entropy := en; trace := tr |} /\
  deobfuscateData L {| datum := []; entropy := en; trace := tr |} =
    Done None {| datum := []; entropy := en; trace := tr |}.
Proof. split; reflexivity. Qed.

(** C7: the secret key derived from a secret [s] is [s] itself when [s]
    has at least 64 bytes and the SHA-256 digest of [s] otherwise; the
    cipher key derived from a password [p] is the SHA-256 digest of [p],
    32 bytes long, whatever the length of [p]. *)
Theorem key_derivation (s p : bytes) (w : world) :
  secretKey s w =
    Done (Ok (if 64 <=? List.length s then s else SHA256.digest s))
         (if 64 <=? List.length s then w else logged w [Invoke Hash]) /\
  sha256sum p = (None, SHA256.digest p) /\
  List.length (SHA256.digest p) = 32.
Proof.
  split; [|split; [apply sha256sum_digest|apply digest_length]].
  unfold secretKey. rewrite Nat.leb_antisym.
  destruct (List.length s <? 64); [|reflexivity].
  unfold bind, emit. rewrite sha256sum_digest. reflexivity.
Qed.

(** C9: a non-empty datum that hex-decodes to fewer than 12 bytes (the
    XOR with the mask key keeps the length) makes [deobfuscateData] panic
    at the slice [ciphertext[:12]] of [decryptString]; it does not return
    an error. *)
Theorem short_envelope_panics (L : GoLib) (w : world) (d : bytes) :
  datum w <> [] -> hexDecode (datum w) = (d, None) ->
  List.length (xor tossKey d) < 12 ->
  deobfuscateData L w = Panic (str "runtime error: slice bounds out of range").
Proof.
  intros Hne Hd Hlen. rewrite xor_length in Hlen.
  now apply deobfuscateData_short with d.
Qed.

Lemma short_envelope_panics_witness :
  deobfuscateData Stub.lib {| datum := str "00"; entropy := []; trace := [] |} =
  Panic (str "runtime error: slice bounds out of range").
Proof.
  apply short_envelope_panics with (d := [zero]);
    [discriminate | reflexivity | vm_compute; lia].
Defined.

(** C10: when [obfuscateData] returns an error the referenced value is the
    empty string, and so it is when [deobfuscateData] returns an error
    after the hex decoding succeeded (an error of the decryption and
    decompression stage). *)
Theorem no_error_atomicity (L : GoLib) (w w' : world) (e : error) :
  (obfuscateData L w = Done (Some e) w' -> datum w' = []) /\
  (forall d, hexDecode (datum w) = (d, None) ->
             deobfuscateData L w = Done (Some e) w' -> datum w' = []).
Proof.
  split.
  - intros H.
    destruct (obfuscateData_cases L w)
      as [[_ H0] | [_ [(e0 & w0 & H0 & Hd) | (env & w0 & H0 & _)]]];
      rewrite H0 in H; try discriminate.
    injection H as _ <-. exact Hd.
  - intros d Hd H.
    destruct (datum w) as [|c v] eqn:Ew.
    + destruct w as [dw en tr]. cbn in Ew. subst dw. discriminate H.
    + assert (Hne : datum w <> []) by (rewrite Ew; discriminate).
      rewrite <- Ew in Hd.
      destruct (Nat.le_gt_cases 12 (List.length d)) as [Hlen|Hlen].
      * destruct (deobfuscateData_run L w Hne Hd Hlen) as (evs & Hrun).
        rewrite Hrun in H. injection H as Herr <-. cbn [datum].
        apply afterInflate_error. rewrite Herr. discriminate.
      * rewrite (deobfuscateData_short L w Hne Hd Hlen) in H. discriminate.
Qed.

Lemma no_error_atomicity_witness :
  let w1 := {| datum := str "a"; entropy := repeat zero 12; trace := [] |} in
  let w1' := {| datum := []; entropy := repeat zero 12;
                trace := [Invoke Hash; Invoke Compress;
                          LogFail [str "crypto: failed to obufscate datum: short write"]] |} in
  let w2 := {| datum := hexEncode (repeat zero 28); entropy := []; trace := [] |} in
  let w2' := {| datum := []; entropy := [];
                trace := [Invoke HexDecode; Invoke Xor; Invoke Hash; Invoke Hash;
                          Invoke Open;
                          LogFail [str "Error decrypting (are you using the correct aeacus/phocus? you may need to re-encrypt your config):";
                                   str "cipher: message authentication failed"];
                          Invoke Xor; Invoke Decompress;
                          LogFail [str "crypto: failed to deobfuscate datum: "; [];
                                   str "error creating zlib reader"]] |} in
  (obfuscateData Stub.failingWriter w1 = Done (Some (str "short write")) w1' /\
   datum w1' = []) /\
  (deobfuscateData Stub.lib w2 = Done (Some (str "error creating zlib reader")) w2' /\
   datum w2' = []).
Proof.
  intros w1 w1' w2 w2'.
  assert (H1 : obfuscateData Stub.failingWriter w1 = Done (Some (str "short write")) w1')
    by (vm_compute; reflexivity).
  assert (H2 : deobfuscateData Stub.lib w2 =
               Done (Some (str "error creating zlib reader")) w2')
    by (vm_compute; reflexivity).
  split; split; [exact H1 | | exact H2 | ].
  - exact (proj1 (no_error_atomicity Stub.failingWriter w1 w1' (str "short write")) H1).
  - apply (proj2 (no_error_atomicity Stub.lib w2 w2' (str "error creating zlib reader"))
             (repeat zero 28)); [vm_compute; reflexivity | exact H2].
Defined.

(** C8: whenever the datum reaches the decompression stage (it decodes to
    an envelope of at least 12 bytes) and the copy out of the zlib reader
    produces no byte, [deobfuscateData] returns an error, and the value is
    left empty; it never returns the empty string as a success. *)
Theorem empty_decompress_rejected (L : GoLib) (w : world) (d : bytes)
    (err : option error) :
  datum w <> [] -> hexDecode (datum w) = (d, None) -> 12 <= List.length d ->
  io_Copy L (inflateInput L d) = ([], err) ->
  exists e w', deobfuscateData L w = Done (Some e) w' /\ datum w' = [].
Proof.
  intros Hne Hd Hlen Hcopy.
  destruct (deobfuscateData_run L w Hne Hd Hlen) as (evs & ->).
  unfold inflateInput in Hcopy. unfold afterInflate. rewrite Hcopy.
  destruct (zlib_NewReader L _); [do 2 eexists; split; reflexivity|].
  destruct err as [e|]; [destruct (eqb_bytes e _)|]; cbn [isEmpty fst snd];
    do 2 eexists; split; reflexivity.
Qed.

Lemma empty_decompress_rejected_witness :
  exists e w',
    deobfuscateData Stub.lib
      {| datum := hexEncode (repeat zero 28); entropy := []; trace := [] |} =
    Done (Some e) w' /\ datum w' = [].
Proof.
  apply (@empty_decompress_rejected Stub.lib
           {| datum := hexEncode (repeat zero 28); entropy := []; trace := [] |}
           (repeat zero 28) (Some (str "unexpected EOF")));
    [discriminate | vm_compute; reflexivity | vm_compute; lia | vm_compute; reflexivity].
Defined.

(** C5: once the zlib reader is created, an "unexpected EOF" from the copy
    is treated as a clean end of the stream: the bytes copied are the
    result (and, exactly as after a clean end, an empty result is rejected
    as "decrypted config is empty"); any other error of the copy makes
    [deobfuscateData] return the error "error decrypting or decompressing
    zlib data: ..." carrying its message, with the value left empty. *)
Theorem unexpected_EOF_tolerated (L : GoLib) (w : world) (d data : bytes)
    (err : option error) :
  datum w <> [] -> hexDecode (datum w) = (d, None) -> 12 <= List.length d ->
  zlib_NewReader L (inflateInput L d) = None ->
  io_Copy L (inflateInput L d) = (data, err) ->
  exists evs,
    let completed :=
      if isEmpty data then
        Done (Some (str "decrypted config is empty"))
             {| datum := []; entropy := entropy w; trace := trace w ++ evs |}
      else
        Done None {| datum := data; entropy := entropy w; trace := trace w ++ evs |} in
    (err = None -> deobfuscateData L w = completed) /\
    (err = Some (str "unexpected EOF") -> deobfuscateData L w = completed) /\
    (forall e, err = Some e -> e <> str "unexpected EOF" ->
       deobfuscateData L w =
       Done (Some (str "error decrypting or decompressing zlib data: " ++ e))
            {| datum := []; entropy := entropy w; trace := trace w ++ evs |}).
Proof.
  intros Hne Hd Hlen Hnew Hcopy.
  destruct (deobfuscateData_run L w Hne Hd Hlen) as (evs & ->).
  unfold inflateInput in Hnew, Hcopy. unfold afterInflate. rewrite Hnew, Hcopy.
  exists evs. cbv zeta. repeat split.
  - intros ->. now destruct (isEmpty data).
  - intros ->. rewrite (proj2 (eqb_bytes_eq _ _) eq_refl). now destruct (isEmpty data).
  - intros e -> Hother. destruct (eqb_bytes e _) eqn:E; [|reflexivity].
    apply eqb_bytes_eq in E. contradiction.
Qed.

Lemma unexpected_EOF_tolerated_witness :
  let nonce := repeat zero 12 in
  let stream := firstn 13 (Stub.deflateStored (str "a")) in
  let env := nonce ++ Stub.Seal cipherKey nonce (xor maskKey stream ++ repeat " "%char 3) in
  let w := {| datum := hexEncode (xor tossKey env); entropy := []; trace := [] |} in
  io_Copy Stub.lib (inflateInput Stub.lib (xor tossKey env)) =
    (str "a", Some (str "unexpected EOF")) /\
  exists evs,
    deobfuscateData Stub.lib w =
    Done None {| datum := str "a"; entropy := []; trace := evs |}.
Proof.
  intros nonce stream env w.
  assert (Hc : io_Copy Stub.lib (inflateInput Stub.lib (xor tossKey env)) =
               (str "a", Some (str "unexpected EOF"))) by (vm_compute; reflexivity).
  split; [exact Hc|].
  destruct (@unexpected_EOF_tolerated Stub.lib w (xor tossKey env) (str "a")
              (Some (str "unexpected EOF"))) as (evs & _ & H & _);
    [vm_compute; discriminate | vm_compute; reflexivity | vm_compute; lia
    | vm_compute; reflexivity | exact Hc | ].
  exists evs. rewrite (H eq_refl). reflexivity.
Defined.

Lemma firstn_skipn_app (a b : bytes) (n : nat) :
  List.length a = n -> firstn n (a ++ b) = a /\ skipn n (a ++ b) = b.
Proof.
  intros <-. split.
  - rewrite firstn_app, Nat.sub_diag, firstn_all. cbn. apply app_nil_r.
  - rewrite skipn_app, Nat.sub_diag, skipn_all. reflexivity.
Qed.

(** C1: with the constants of the source, what [obfuscateData] stores for
    [v] is turned back into [v] by [deobfuscateData], both returning nil.
    The hypotheses are about the environment and the library: the random
    source delivers a nonce; the zlib writer accepts [v] and writes a
    stream that starts with the byte 0x78 and ends with the empty stored
    block 00 00 ff ff and four checksum bytes (as compress/zlib does); the
    zlib reader recovers [v] from that stream, reporting nothing or
    "unexpected EOF" when at most 7 bytes are missing at its end; and Open
    returns what Seal sealed.  That [TrimSpace] never removes more than 7
    bytes of the masked stream, and none at its start, is proved from the
    value of the key. *)
Theorem round_trip (L : GoLib) (v en : bytes) (tr : list event)
    (body adler : bytes) :
  12 <= List.length en ->
  zlib_Write L v = None ->
  zlib_Bytes L v = "x"%char :: body ++ streamTail ++ adler ->
  List.length adler = 4 ->
  (forall t, t <= 7 ->
     let s := firstn (List.length (zlib_Bytes L v) - t) (zlib_Bytes L v) in
     zlib_NewReader L s = None /\
     (io_Copy L s = (v, None) \/ io_Copy L s = (v, Some (str "unexpected EOF")))) ->
  gcm_Open L cipherKey (firstn 12 en)
    (gcm_Seal L cipherKey (firstn 12 en) (paddedPlain L v)) = Ok (paddedPlain L v) ->
  exists w1 w2,
    obfuscateData L {| datum := v; entropy := en; trace := tr |} = Done None w1 /\
    deobfuscateData L w1 = Done None w2 /\ datum w2 = v.
Proof.
  intros Hen Hwrite Hshape Hadler Hread Hopen.
  destruct v as [|c0 v0] eqn:Ev.
  { do 2 eexists. repeat split; reflexivity. }
  rewrite <- Ev in *. assert (Hv : v <> []) by (rewrite Ev; discriminate).
  set (nonce := firstn 12 en) in *.
  assert (Hnonce : List.length nonce = 12) by (apply firstn_length_le; trivial).
  set (env := envelope L nonce v).
  eexists. rewrite (@obfuscateData_run L v en tr Hv Hwrite Hen). fold nonce env.
  set (w1 := {| datum := hexEncode (xor tossKey env) |}).
  assert (Hlen : 12 <= List.length (xor tossKey env)).
  { rewrite xor_length. unfold env, envelope. rewrite length_app. lia. }
  destruct (@deobfuscateData_run L w1 (xor tossKey env)) as (evs & Hrun).
  { unfold w1. cbn [datum]. intros H. apply (f_equal isEmpty) in H.
    rewrite hexEncode_isEmpty in H. destruct (xor tossKey env); [cbn in Hlen; lia|discriminate]. }
  { apply hexDecode_hexEncode. }
  { exact Hlen. }
  rewrite Hrun. rewrite xor_involutive.
  assert (Hdec : exists t, t <= 7 /\
            decrypted L env =
            xor maskKey (firstn (List.length (zlib_Bytes L v) - t) (zlib_Bytes L v))).
  { unfold decrypted, env, envelope.
    destruct (@firstn_skipn_app nonce (gcm_Seal L cipherKey nonce (paddedPlain L v)) 12 Hnonce)
      as [-> ->].
    rewrite Hopen. unfold paddedPlain, maskKey. rewrite Hshape.
    destruct (@TrimSpace_masked_stream body adler
                (aes_BlockSize -
                 List.length (xor (SHA256.digest randomString)
                                ("x"%char :: body ++ streamTail ++ adler)) mod aes_BlockSize)
                Hadler) as (t & Ht & _ & Heq).
    exists t. split; [exact Ht|exact Heq]. }
  destruct Hdec as (t & Ht & ->).
  unfold afterInflate. rewrite xor_involutive.
  destruct (Hread t Ht) as [-> Hcopy].
  eexists. split; [reflexivity|].
  destruct Hcopy as [-> | ->]; rewrite Ev; cbn [isEmpty fst snd eqb_bytes];
    [|rewrite (proj2 (eqb_bytes_eq (str "unexpected EOF") _) eq_refl)];
    split; reflexivity.
Qed.

Lemma round_trip_witness :
  exists w1 w2,
    obfuscateData Stub.lib
      {| datum := str "a"; entropy := repeat (byte_of_N 171) 12; trace := [] |} =
    Done None w1 /\
    deobfuscateData Stub.lib w1 = Done None w2 /\ datum w2 = str "a".
Proof.
  apply (@round_trip Stub.lib (str "a") (repeat (byte_of_N 171) 12) []
           (map byte_of_N [156; 0; 1; 0; 254; 255; 97; 1]%N)
           (map byte_of_N [0; 98; 0; 98]%N)).
  - vm_compute. lia.
  - reflexivity.
  - vm_compute. reflexivity.
  - reflexivity.
  - intros t Ht.
    do 8 (destruct t as [|t];
          [vm_compute; split;
           [reflexivity | first [left; reflexivity | right; reflexivity]]|]).
    lia.
  - vm_compute. reflexivity.
Defined.

Lemma pairs_ind (P : bytes -> Prop) :
  P [] -> (forall c, P [c]) -> (forall a b s, P s -> P (a :: b :: s)) ->
  forall s, P s.
Proof.
  intros H0 H1 H2 s.
  assert (H : P s /\ forall a, P (a :: s)); [|apply H].
  induction s as [|b s [IHs IHa]]; split; auto.
Qed.

Lemma hexDecodePairs_length (s : bytes) :
  forall d, hexDecodePairs s = (d, None) -> List.length s = 2 * List.length d.
Proof.
  induction s as [|c|a b s IH] using pairs_ind; intros d H.
  - injection H as <-. reflexivity.
  - cbn in H. destruct (fromHexChar c); discriminate.
  - cbn in H. destruct (fromHexChar a); [|discriminate].
    destruct (fromHexChar b); [|discriminate].
    destruct (hexDecodePairs s) as [out err]. injection H as <- ->.
    cbn. rewrite (IH out eq_refl). lia.
Qed.

Lemma hexDecode_length (s d : bytes) :
  hexDecode s = (d, None) -> List.length s = 2 * List.length d.
Proof.
  unfold hexDecode. destruct (hexDecodePairs s) as [out [e|]] eqn:E; [discriminate|].
  intros H. injection H as <-. now apply hexDecodePairs_length.
Qed.

Lemma hexDecodePairs_invalid (s : bytes) (b : ascii) :
  In b s -> fromHexChar b = None -> snd (hexDecodePairs s) <> None.
Proof.
  intros Hin Hb. induction s as [|c|x y s IH] using pairs_ind.
  - destruct Hin.
  - destruct Hin as [->|[]]. cbn. rewrite Hb. discriminate.
  - cbn. destruct (fromHexChar x) eqn:Ex; [|discriminate].
    destruct (fromHexChar y) eqn:Ey; [|discriminate].
    destruct Hin as [->|[->|Hin]]; [congruence|congruence|].
    destruct (hexDecodePairs s) as [out err]. cbn in *. now apply IH.
Qed.

Lemma hexDecode_invalid (s : bytes) (b : ascii) :
  In b s -> fromHexChar b = None -> exists e, hexDecode s = ([], Some e).
Proof.
  intros Hin Hb. pose proof (hexDecodePairs_invalid s b Hin Hb) as H.
  unfold hexDecode. destruct (hexDecodePairs s) as [out [e|]]; [|now destruct H].
  now exists e.
Qed.

Lemma replaceAt_length (i : nat) (b : ascii) (s : bytes) :
  i < List.length s -> List.length (replaceAt i b s) = List.length s.
Proof.
  intros H. unfold replaceAt.
  rewrite length_app, length_firstn. cbn [List.length]. rewrite length_skipn. lia.
Qed.

Lemma replaceAt_In (i : nat) (b : ascii) (s : bytes) : In b (replaceAt i b s).
Proof. unfold replaceAt. apply in_or_app. right. now left. Qed.

(** C2, as the code has it: after a successful [obfuscateData] of a
    non-empty value, replacing one byte of the stored artifact makes
    [deobfuscateData] return an error when the new byte is not a hex digit
    (the error of the hex decoding) and, when the artifact still decodes
    and Open rejects the decoded envelope, the error "error creating zlib
    reader" with the value left empty: [decryptString] only logs the
    authentication failure and returns the empty string, which the zlib
    reader then refuses. *)
Theorem tampering_detected (L : GoLib) (v en : bytes) (tr : list event)
    (w1 : world) (i : nat) (b : ascii) :
  v <> [] ->
  obfuscateData L {| datum := v; entropy := en; trace := tr |} = Done None w1 ->
  i < List.length (datum w1) ->
  let tampered := {| datum := replaceAt i b (datum w1);
                     entropy := entropy w1; trace := trace w1 |} in
  (fromHexChar b = None ->
   exists e w2, deobfuscateData L tampered = Done (Some e) w2) /\
  (forall d e,
     hexDecode (replaceAt i b (datum w1)) = (d, None) ->
     gcm_Open L cipherKey (firstn 12 (xor tossKey d)) (skipn 12 (xor tossKey d)) = Err e ->
     zlib_NewReader L [] <> None ->
     exists w2, deobfuscateData L tampered =
                Done (Some (str "error creating zlib reader")) w2 /\
                datum w2 = []).
Proof.
  intros Hv Hobf Hi tampered.
  assert (Hne : datum tampered <> []).
  { unfold tampered, replaceAt. cbn [datum]. now destruct (firstn i (datum w1)). }
  split.
  - intros Hb.
    destruct (@hexDecode_invalid (replaceAt i b (datum w1)) b (replaceAt_In _ _ _) Hb)
      as (e & He).
    do 2 eexists. apply deobfuscateData_hex_error; [exact Hne|exact He].
  - intros d e Hd Hopen Hreader.
    assert (Hlen : 12 <= List.length d).
    { destruct (obfuscateData_cases L {| datum := v; entropy := en; trace := tr |})
        as [[H0 _] | [_ [(e0 & w0 & H0 & _) | (env & w0 & H0 & Hdat & Henv)]]].
      - now destruct Hv.
      - rewrite H0 in Hobf. discriminate.
      - rewrite H0 in Hobf. injection Hobf as ->.
        apply hexDecode_length in Hd. rewrite replaceAt_length in Hd by trivial.
        rewrite Hdat, hexEncode_length, xor_length in Hd, Hi.
        destruct Henv as [-> | Henv]; [cbn in Hi; lia | lia]. }
    destruct (@deobfuscateData_run L tampered d Hne Hd Hlen) as (evs & ->).
    unfold afterInflate, decrypted. rewrite Hopen.
    change (xor maskKey []) with (@nil ascii).
    destruct (zlib_NewReader L []); [|now destruct Hreader].
    eexists. split; reflexivity.
Qed.

Lemma tampering_detected_witness :
  let w := {| datum := str "a"; entropy := repeat (byte_of_N 171) 12; trace := [] |} in
  exists w1,
    obfuscateData Stub.lib w = Done None w1 /\
    exists w2,
      deobfuscateData Stub.lib
        {| datum := replaceAt 0 "b"%char (datum w1);
           entropy := entropy w1; trace := trace w1 |} =
      Done (Some (str "error creating zlib reader")) w2 /\ datum w2 = [].
Proof.
  intros w.
  destruct (obfuscateData Stub.lib w) as [r w1|] eqn:E; [|vm_compute in E; discriminate E].
  assert (Hr : r = None) by (vm_compute in E; now injection E).
  subst r. exists w1. split; [reflexivity|].
  assert (Hw1 : w1 = match obfuscateData Stub.lib w with
                     | Done _ w' => w' | Panic _ => w end) by now rewrite E.
  refine (proj2 (@tampering_detected Stub.lib (str "a") (repeat (byte_of_N 171) 12) []
                   w1 0 "b"%char _ E _)
                (fst (hexDecode (replaceAt 0 "b"%char (datum w1))))
                (str "cipher: message authentication failed") _ _ _).
  - discriminate.
  - rewrite Hw1. vm_compute. lia.
  - rewrite Hw1. vm_compute. reflexivity.
  - rewrite Hw1. vm_compute. reflexivity.
  - vm_compute. discriminate.
Defined.

(** C2 as stated fails: the artifact stored for "a" starts with the hex
    digit "a"; writing "A" in its place changes one byte, the hex decoding
    yields the same envelope, and [deobfuscateData] returns nil with the
    original value.  And where a changed digit is detected (here "b"), the
    error [deobfuscateData] returns is "error creating zlib reader", not an
    authentication error. *)
Lemma case_flip_undetected :
  let rest := str "aaaaaaaaaaaaaaaaaaaaaaae90948b0d622a5ebbe513d368c10c4a08d412bf710e2a484f6edc31d56a464bbef78fce9892272706e52e1129cc7265f" in
  let tr1 := [Invoke Hash; Invoke Compress; Invoke Xor; Invoke Hash; Invoke Random;
              Invoke Seal; Invoke Xor; Invoke HexEncode] in
  let opening := [Invoke HexDecode; Invoke Xor; Invoke Hash; Invoke Hash; Invoke Open] in
  obfuscateData Stub.lib
    {| datum := str "a"; entropy := repeat (byte_of_N 171) 12; trace := [] |} =
    Done None {| datum := "a"%char :: rest; entropy := []; trace := tr1 |} /\
  deobfuscateData Stub.lib
    {| datum := "A"%char :: rest; entropy := []; trace := tr1 |} =
    Done None {| datum := str "a"; entropy := [];
                 trace := tr1 ++ opening ++ [Invoke Xor; Invoke Decompress] |} /\
  deobfuscateData Stub.lib
    {| datum := "b"%char :: rest; entropy := []; trace := tr1 |} =
    Done (Some (str "error creating zlib reader"))
         {| datum := []; entropy := [];
            trace := tr1 ++ opening ++
              [LogFail [str "Error decrypting (are you using the correct aeacus/phocus? you may need to re-encrypt your config):";
                        str "cipher: message authentication failed"];
               Invoke Xor; Invoke Decompress;
               LogFail [str "crypto: failed to deobfuscate datum: "; [];
                        str "error creating zlib reader"]] |}.
Proof. cbv zeta. split; [|split]; vm_compute; reflexivity. Qed.

(** C3, as the code has it: for every password (its SHA-256 digest is the
    32-byte key) and every envelope of at least 12 bytes that Open rejects
    under that key, [decryptString] passes the failure to the logging
    helper [fail] and returns the empty string; it has no error result.
    Under the key of the source [decryptConfig] then hands the empty
    string to zlib.NewReader and, that reader refusing it, returns the
    explicit error "error creating zlib reader" with an empty value. *)
Theorem open_failure (L : GoLib) (password ciphertext : bytes) (w : world)
    (e : error) :
  12 <= List.length ciphertext ->
  gcm_Open L (SHA256.digest password) (firstn 12 ciphertext) (skipn 12 ciphertext) = Err e ->
  zlib_NewReader L [] <> None ->
  decryptString L password ciphertext w =
    Done [] (logged w [Invoke Hash; Invoke Open;
                       LogFail [str "Error decrypting (are you using the correct aeacus/phocus? you may need to re-encrypt your config):"; e]]) /\
  (password = byteKey ->
   exists evs, decryptConfig L ciphertext w =
               Done ([], Some (str "error creating zlib reader")) (logged w evs)).
Proof.
  intros Hlen Hopen Hreader. split.
  - rewrite decryptString_run by trivial. now rewrite Hopen.
  - intros ->. destruct (@decryptConfig_run L ciphertext w Hlen) as (evs & ->).
    exists evs. unfold afterInflate, decrypted, cipherKey. rewrite Hopen.
    change (xor maskKey []) with (@nil ascii).
    destruct (zlib_NewReader L []); [reflexivity|now destruct Hreader].
Qed.

Lemma open_failure_witness :
  exists evs,
    decryptConfig Stub.lib (repeat zero 28) {| datum := []; entropy := []; trace := [] |} =
    Done ([], Some (str "error creating zlib reader"))
         {| datum := []; entropy := []; trace := evs |}.
Proof.
  refine (proj2 (@open_failure Stub.lib byteKey (repeat zero 28)
                   {| datum := []; entropy := []; trace := [] |}
                   (str "cipher: message authentication failed") _ _ _) eq_refl).
  - vm_compute. lia.
  - vm_compute. reflexivity.
  - vm_compute. discriminate.
Defined.

(** C3 as stated fails: on an envelope whose tag does not verify,
    [decryptString] returns the zero-length string and no error. *)
Lemma open_failure_returns_empty :
  gcm_Open Stub.lib (SHA256.digest byteKey)
    (firstn 12 (repeat zero 28)) (skipn 12 (repeat zero 28)) =
    Err (str "cipher: message authentication failed") /\
  decryptString Stub.lib byteKey (repeat zero 28)
    {| datum := []; entropy := []; trace := [] |} =
    Done []
      {| datum := []; entropy := [];
         trace := [Invoke Hash; Invoke Open;
                   LogFail [str "Error decrypting (are you using the correct aeacus/phocus? you may need to re-encrypt your config):";
                            str "cipher: message authentication failed"]] |}.
Proof. split; vm_compute; reflexivity. Qed.

(** C4 fails on the code: [decryptString] returns [TrimSpace] of the
    opened plaintext, and [TrimSpace] also removes leading white space.
    When the plaintext sealed was " a" (padded with 14 spaces by
    [encryptString]), what comes back is "a": the leading space, which is
    data, is gone. *)
Theorem leading_space_trimmed (L : GoLib) (password ciphertext : bytes) (w : world) :
  12 <= List.length ciphertext ->
  gcm_Open L (SHA256.digest password) (firstn 12 ciphertext) (skipn 12 ciphertext) =
    Ok (str " a" ++ repeat " "%char 14) ->
  decryptString L password ciphertext w =
  Done (str "a") (logged w [Invoke Hash; Invoke Open]).
Proof.
  intros Hlen Hopen. rewrite decryptString_run by trivial. rewrite Hopen.
  replace (TrimSpace (str " a" ++ repeat " "%char 14)) with (str "a")
    by (vm_compute; reflexivity).
  reflexivity.
Qed.

Lemma leading_space_trimmed_witness :
  let nonce := repeat zero 12 in
  let ciphertext :=
    nonce ++ Stub.Seal (SHA256.digest byteKey) nonce (str " a" ++ repeat " "%char 14) in
  let w1 := {| datum := []; entropy := [];
               trace := [Invoke Hash; Invoke Random; Invoke Seal] |} in
  encryptString Stub.lib byteKey (str " a")
    {| datum := []; entropy := nonce; trace := [] |} = Done ciphertext w1 /\
  decryptString Stub.lib byteKey ciphertext w1 =
    Done (str "a") (logged w1 [Invoke Hash; Invoke Open]).
Proof.
  cbv zeta. split; [vm_compute; reflexivity|].
  apply leading_space_trimmed; vm_compute; [lia|reflexivity].
Defined.
